(** * HealthScribe front end: the two request handlers of [App.jsx]

    The component [App] keeps five pieces of React state and has two
    asynchronous click handlers, [handleTranscription] and
    [handleQuestionAnswer].  Each handler checks its inputs, raises the
    [loading] flag, posts one request with axios, stores something from
    the response and lowers the flag in a [finally] block.

    The handlers are embedded as terms of a small resumption monad
    [Async]: a handler runs until it awaits the network, and is resumed
    later with the outcome of the request.  JavaScript values, truthiness,
    property reads and [try]/[catch]/[finally] are modelled as the
    language defines them. *)

From Stdlib Require Import String List Bool Lia.
From Stdlib Require Import Floats.SpecFloat.
Import ListNotations.
Open Scope string_scope.
Open Scope list_scope.

(* ------------------------------------------------------------------ *)
(** ** JavaScript values *)

(** The values a JSON response body, a piece of state or a caught error
    can be.  Numbers are IEEE-754 doubles; an object keeps its own
    properties in insertion order. *)
#[warnings="-register-all"]
Inductive JsVal : Type :=
| JUndefined
| JNull
| JBool (b : bool)
| JNum (x : spec_float)
| JStr (s : string)
| JArr (items : list JsVal)
| JObj (props : list (string * JsVal)).

(** ToBoolean: [undefined], [null], [false], [0], [-0], [NaN] and the
    empty string are falsy, everything else (every object and array
    included) is truthy. *)
Definition truthy (v : JsVal) : bool :=
  match v with
  | JUndefined | JNull => false
  | JBool b => b
  | JNum (S754_zero _) | JNum S754_nan => false
  | JNum _ => true
  | JStr s => negb (String.eqb s "")
  | JArr _ | JObj _ => true
  end.

Fixpoint assoc (key : string) (props : list (string * JsVal)) : option JsVal :=
  match props with
  | [] => None
  | (k, v) :: rest => if String.eqb k key then Some v else assoc key rest
  end.

(** The own property [key] of a value, when it has one.  Only objects
    carry named own properties here. *)
Definition field (v : JsVal) (key : string) : option JsVal :=
  match v with
  | JObj props => assoc key props
  | _ => None
  end.

(** The error a failed property read throws. *)
Definition TypeError (msg : string) : JsVal :=
  JObj [("name", JStr "TypeError"); ("message", JStr msg)].

(** [v.key] for a name that no built-in prototype defines (such as
    [answer]): reading from [null] or [undefined] throws a TypeError, an
    absent property reads as [undefined]. *)
Definition get_member (v : JsVal) (key : string) : JsVal + JsVal :=
  match v with
  | JUndefined =>
      inr (TypeError ("Cannot read properties of undefined (reading '" ++ key ++ "')")%string)
  | JNull =>
      inr (TypeError ("Cannot read properties of null (reading '" ++ key ++ "')")%string)
  | _ => match field v key with
         | Some x => inl x
         | None => inl JUndefined
         end
  end.

(* ------------------------------------------------------------------ *)
(** ** Component state *)

(** The five [useState] cells of [App] (lines 5-9).  [selectedAudio] and
    [question] only ever receive strings ([file.url], [e.target.value]);
    [answer] and [summary] receive whatever the backend sent. *)
Record State : Type := mkState {
  selectedAudio : string;
  question : string;
  answer : JsVal;
  summary : JsVal;
  loading : bool
}.

Definition initialState : State :=
  {| selectedAudio := ""; question := ""; answer := JStr "";
     summary := JNull; loading := false |}.

Definition setSelectedAudio (v : string) (s : State) : State :=
  {| selectedAudio := v; question := question s; answer := answer s;
     summary := summary s; loading := loading s |}.

Definition setQuestion (v : string) (s : State) : State :=
  {| selectedAudio := selectedAudio s; question := v; answer := answer s;
     summary := summary s; loading := loading s |}.

Definition setAnswer (v : JsVal) (s : State) : State :=
  {| selectedAudio := selectedAudio s; question := question s; answer := v;
     summary := summary s; loading := loading s |}.

Definition setSummary (v : JsVal) (s : State) : State :=
  {| selectedAudio := selectedAudio s; question := question s; answer := answer s;
     summary := v; loading := loading s |}.

Definition setLoading (b : bool) (s : State) : State :=
  {| selectedAudio := selectedAudio s; question := question s; answer := answer s;
     summary := summary s; loading := b |}.

Record AudioFile : Type := mkAudioFile { label : string; url : string }.

Definition audioFiles : list AudioFile :=
  [ {| label := "Audio File 1"; url := "s3://dax-health-transcribe/Sample_data.mp3" |};
    {| label := "Audio File 2"; url := "s3://dax-health-transcribe/Sample_data.mp3" |};
    {| label := "Audio File 3"; url := "s3://dax-health-transcribe/Sample_data.mp3" |} ].

(* ------------------------------------------------------------------ *)
(** ** Asynchronous programs *)

(** How a posted request settles: the promise resolves with a response
    whose body is [data], or rejects with an error (no connection, or a
    status outside 2xx). *)
Inductive Outcome : Type :=
| Resolved (data : JsVal)
| Rejected (error : JsVal).

(** The primitive actions a handler performs between two awaits. *)
Inductive Act : Type :=
| ActSetLoading (b : bool)
| ActSetSummary (v : JsVal)
| ActSetAnswer (v : JsVal)
| ActAlert (msg : string)
| ActConsoleError (msg : string) (error : JsVal).

(** A handler body: it returns, throws, performs an action and goes on,
    or posts a request and waits for its outcome. *)
Inductive Async (A : Type) : Type :=
| Ret (a : A)
| Throw (e : JsVal)
| Do (act : Act) (k : Async A)
| Post (target : string) (body : JsVal) (k : Outcome -> Async A).

Arguments Ret {A} a.
Arguments Throw {A} e.
Arguments Do {A} act k.
Arguments Post {A} target body k.

Fixpoint bind {A B : Type} (p : Async A) (f : A -> Async B) : Async B :=
  match p with
  | Ret a => f a
  | Throw e => Throw e
  | Do act k => Do act (bind k f)
  | Post target body k => Post target body (fun o => bind (k o) f)
  end.

Notation "x <- p ;; q" := (bind p (fun x => q))
  (at level 61, p at next level, right associativity).
Notation "p ;; q" := (bind p (fun _ => q))
  (at level 61, right associativity).

Definition perform (act : Act) : Async unit := Do act (Ret tt).

(** [await axios.post(target, body)]: a rejected promise is rethrown at
    the [await]; a resolved one yields [response.data]. *)
Definition axios_post (target : string) (body : JsVal) : Async JsVal :=
  Post target body (fun o =>
    match o with
    | Resolved data => Ret data
    | Rejected error => Throw error
    end).

(** The read [v.key] as a step of a program. *)
Definition member (v : JsVal) (key : string) : Async JsVal :=
  match get_member v key with
  | inl x => Ret x
  | inr e => Throw e
  end.

(** [try { p } catch (e) { h e }]. *)
Fixpoint catch {A : Type} (p : Async A) (h : JsVal -> Async A) : Async A :=
  match p with
  | Ret a => Ret a
  | Throw e => h e
  | Do act k => Do act (catch k h)
  | Post target body k => Post target body (fun o => catch (k o) h)
  end.

(** [try { p } finally { f }]: [f] runs on both the normal and the
    throwing exit of [p], and the completion of [p] is kept. *)
Fixpoint finally {A : Type} (p : Async A) (f : Async unit) : Async A :=
  match p with
  | Ret a => f ;; Ret a
  | Throw e => f ;; Throw e
  | Do act k => Do act (finally k f)
  | Post target body k => Post target body (fun o => finally (k o) f)
  end.

Definition try_catch_finally {A : Type}
    (p : Async A) (h : JsVal -> Async A) (f : Async unit) : Async A :=
  finally (catch p h) f.

(* ------------------------------------------------------------------ *)
(** ** The two handlers *)

Definition transcription_endpoint : string := "http://localhost:5000/start-transcription".
Definition question_endpoint : string := "http://localhost:5000/question-ans".

Definition msg_select_audio : string := "Please select an audio file.".
Definition msg_transcription_failed : string := "Failed to process the audio file.".
Definition msg_incomplete : string := "Please complete transcription and enter a question.".
Definition msg_answer_failed : string := "Failed to fetch the answer.".

(** [handleTranscription] (lines 26-44).  The argument is the state of
    the render whose closure the handler is. *)
Definition handleTranscription (r : State) : Async unit :=
  if negb (truthy (JStr (selectedAudio r))) then
    perform (ActAlert msg_select_audio) ;;
    Ret tt
  else
    perform (ActSetLoading true) ;;
    try_catch_finally
      (data <- axios_post transcription_endpoint
                 (JObj [("audioUrl", JStr (selectedAudio r))]) ;;
       perform (ActSetSummary data))
      (fun error =>
         perform (ActConsoleError "Error starting transcription:" error) ;;
         perform (ActAlert msg_transcription_failed))
      (perform (ActSetLoading false)).

(** [handleQuestionAnswer] (lines 46-64). *)
Definition handleQuestionAnswer (r : State) : Async unit :=
  if negb (truthy (summary r)) || negb (truthy (JStr (question r))) then
    perform (ActAlert msg_incomplete) ;;
    Ret tt
  else
    perform (ActSetLoading true) ;;
    try_catch_finally
      (data <- axios_post question_endpoint
                 (JObj [("question", JStr (question r))]) ;;
       a <- member data "answer" ;;
       perform (ActSetAnswer a))
      (fun error =>
         perform (ActConsoleError "Error fetching answer:" error) ;;
         perform (ActAlert msg_answer_failed))
      (perform (ActSetLoading false)).

(* ------------------------------------------------------------------ *)
(** ** Running a handler *)

(** What a handler does to the outside world, in the order it does it. *)
Inductive Effect : Type :=
| EAlert (msg : string)
| EConsoleError (msg : string) (error : JsVal)
| ERequest (target : string) (body : JsVal).

Definition apply_act (act : Act) (s : State) : State * list Effect :=
  match act with
  | ActSetLoading b => (setLoading b s, [])
  | ActSetSummary v => (setSummary v s, [])
  | ActSetAnswer v => (setAnswer v s, [])
  | ActAlert msg => (s, [EAlert msg])
  | ActConsoleError msg error => (s, [EConsoleError msg error])
  end.

(** Where a run stops: the handler returned, it died of an exception
    nobody caught, or it sits at an [await] with the rest of its body
    [k] waiting for the request to settle. *)
Inductive Status : Type :=
| Returned
| Uncaught (e : JsVal)
| Waiting (k : Outcome -> Async unit).

(** Run [p] from state [s] up to its first [await]. *)
Fixpoint run (p : Async unit) (s : State) : State * list Effect * Status :=
  match p with
  | Ret _ => (s, [], Returned)
  | Throw e => (s, [], Uncaught e)
  | Do act k =>
      let '(s1, out1) := apply_act act s in
      let '(s2, out2, st) := run k s1 in
      (s2, out1 ++ out2, st)
  | Post target body k => (s, [ERequest target body], Waiting k)
  end.

(** Run [p] to its end, every request it posts settling as [reply] with
    nothing else happening in between.  The last component is the
    exception that escaped, if one did. *)
Fixpoint exec (p : Async unit) (reply : Outcome) (s : State)
  : State * list Effect * option JsVal :=
  match p with
  | Ret _ => (s, [], None)
  | Throw e => (s, [], Some e)
  | Do act k =>
      let '(s1, out1) := apply_act act s in
      let '(s2, out2, r) := exec k reply s1 in
      (s2, out1 ++ out2, r)
  | Post target body k =>
      let '(s2, out2, r) := exec (k reply) reply s in
      (s2, ERequest target body :: out2, r)
  end.

Definition final {B : Type} (r : State * list Effect * B) : State := fst (fst r).
Definition effects {B : Type} (r : State * list Effect * B) : list Effect := snd (fst r).

(** The requests among some effects, and the alerts among them. *)
Fixpoint requests (out : list Effect) : list (string * JsVal) :=
  match out with
  | [] => []
  | ERequest target body :: rest => (target, body) :: requests rest
  | _ :: rest => requests rest
  end.

Fixpoint alerts (out : list Effect) : list string :=
  match out with
  | [] => []
  | EAlert msg :: rest => msg :: alerts rest
  | _ :: rest => alerts rest
  end.

(** The guards of the two handlers, as the source writes them. *)
Definition audio_selected (s : State) : bool := truthy (JStr (selectedAudio s)).

Definition can_ask (s : State) : bool :=
  truthy (summary s) && truthy (JStr (question s)).

(* ------------------------------------------------------------------ *)
(** ** The page as a transition system *)

Inductive Handler : Type := Transcription | QuestionAnswer.

Definition handler (h : Handler) : State -> Async unit :=
  match h with
  | Transcription => handleTranscription
  | QuestionAnswer => handleQuestionAnswer
  end.

(** The [disabled] attribute of the two buttons (lines 87 and 111). *)
Definition disabled (h : Handler) (s : State) : bool :=
  match h with
  | Transcription => negb (truthy (JStr (selectedAudio s))) || loading s
  | QuestionAnswer => negb (truthy (JStr (question s))) || loading s
  end.

(** The state cells, the handlers suspended at an [await], and what the
    page did so far. *)
Record Config : Type := mkConfig {
  store : State;
  inflight : list (Outcome -> Async unit);
  trace : list Effect
}.

Definition initialConfig : Config :=
  {| store := initialState; inflight := []; trace := [] |}.

Inductive Event : Type :=
| PickAudio (i : nat)             (* the i-th radio button changes *)
| TypeQuestion (v : string)       (* the text input changes *)
| Click (h : Handler)             (* a button is clicked *)
| Call (h : Handler)              (* a handler is called directly *)
| Settle (i : nat) (o : Outcome). (* the i-th outstanding request settles *)

(** Run [p] on the current store; a handler that stops at an [await]
    joins the outstanding ones. *)
Definition launch (p : Async unit) (c : Config) : Config :=
  let '(s, out, st) := run p (store c) in
  {| store := s;
     inflight := match st with
                 | Waiting k => inflight c ++ [k]
                 | _ => inflight c
                 end;
     trace := trace c ++ out |}.

Definition with_store (f : State -> State) (c : Config) : Config :=
  {| store := f (store c); inflight := inflight c; trace := trace c |}.

Definition drop_inflight (i : nat) (c : Config) : Config :=
  {| store := store c;
     inflight := firstn i (inflight c) ++ skipn (S i) (inflight c);
     trace := trace c |}.

(** One event; [None] when the event cannot happen (no such radio
    button, a disabled button, no such outstanding request). *)
Definition step (c : Config) (ev : Event) : option Config :=
  match ev with
  | PickAudio i =>
      match nth_error audioFiles i with
      | Some file => Some (with_store (setSelectedAudio (url file)) c)
      | None => None
      end
  | TypeQuestion v => Some (with_store (setQuestion v) c)
  | Click h =>
      if disabled h (store c) then None
      else Some (launch (handler h (store c)) c)
  | Call h => Some (launch (handler h (store c)) c)
  | Settle i o =>
      match nth_error (inflight c) i with
      | Some k => Some (launch (k o) (drop_inflight i c))
      | None => None
      end
  end.

Fixpoint steps (c : Config) (evs : list Event) : option Config :=
  match evs with
  | [] => Some c
  | ev :: rest =>
      match step c ev with
      | Some c' => steps c' rest
      | None => None
      end
  end.

(** Events a user can cause through the page: everything but a direct
    call of a handler. *)
Definition from_page (ev : Event) : bool :=
  match ev with
  | Call _ => false
  | _ => true
  end.

(* ------------------------------------------------------------------ *)
(** ** Vocabulary of the statements *)

(** The request each handler posts, and what the [catch] block of
    [handleQuestionAnswer] emits. *)
Definition transcription_request (s : State) : Effect :=
  ERequest transcription_endpoint (JObj [("audioUrl", JStr (selectedAudio s))]).

Definition question_request (s : State) : Effect :=
  ERequest question_endpoint (JObj [("question", JStr (question s))]).

Definition answer_read_failed (e : JsVal) : list Effect :=
  [EConsoleError "Error fetching answer:" e; EAlert msg_answer_failed].

(** A suspended handler "releases" when, whatever the outcome and
    whatever the state it is resumed in, it returns with [loading]
    lowered. *)
Definition releases (k : Outcome -> Async unit) : Prop :=
  forall o s, exists s' out, run (k o) s = (s', out, Returned) /\ loading s' = false.

(** Holds under every interleaving, direct calls included. *)
Definition never_stuck (c : Config) : Prop :=
  Forall releases (inflight c)
  /\ (inflight c = [] -> loading (store c) = false).

(** Holds as long as the handlers are only reached through the buttons. *)
Definition flag_tracks_request (c : Config) : Prop :=
  Forall releases (inflight c)
  /\ length (inflight c) = (if loading (store c) then 1 else 0).

(** A session in which a file is selected, a transcription arrived and a
    question is typed. *)
Definition sample_session : State :=
  {| selectedAudio := "s3://dax-health-transcribe/Sample_data.mp3";
     question := "What medication?";
     answer := JStr "";
     summary := JObj [("status", JStr "done"); ("text", JStr "hello")];
     loading := false |}.

(** The fields a transcription must leave alone. *)
Definition same_inputs (s s' : State) : Prop :=
  answer s' = answer s /\ question s' = question s
  /\ selectedAudio s' = selectedAudio s.

(** The reading under which every resolved request whose body has no
    [answer] field sets [answer] to [undefined]. *)
Definition absent_answer_reads_undefined_always : Prop :=
  forall s d,
    can_ask s = true ->
    field d "answer" = None ->
    answer (final (exec (handleQuestionAnswer s) (Resolved d) s)) = JUndefined.

(** The guard, the refusal message and the request of each handler. *)
Definition guard (h : Handler) (s : State) : bool :=
  match h with
  | Transcription => audio_selected s
  | QuestionAnswer => can_ask s
  end.

Definition refusal (h : Handler) : string :=
  match h with
  | Transcription => msg_select_audio
  | QuestionAnswer => msg_incomplete
  end.

Definition request_of (h : Handler) (s : State) : Effect :=
  match h with
  | Transcription => transcription_request s
  | QuestionAnswer => question_request s
  end.

(** What the rest of each handler does once its request settles, in
    whatever state it is resumed. *)
Definition transcription_rest (k : Outcome -> Async unit) : Prop :=
  (forall d s,
     run (k (Resolved d)) s = (setLoading false (setSummary d s), [], Returned))
  /\ (forall e s,
        run (k (Rejected e)) s
        = (setLoading false s,
           [EConsoleError "Error starting transcription:" e;
            EAlert msg_transcription_failed],
           Returned)).

Definition question_rest (k : Outcome -> Async unit) : Prop :=
  (forall d s,
     run (k (Resolved d)) s
     = match get_member d "answer" with
       | inl v => (setLoading false (setAnswer v s), [], Returned)
       | inr e => (setLoading false s, answer_read_failed e, Returned)
       end)
  /\ (forall e s,
        run (k (Rejected e)) s
        = (setLoading false s, answer_read_failed e, Returned)).

Definition handler_rest (h : Handler) (k : Outcome -> Async unit) : Prop :=
  match h with
  | Transcription => transcription_rest k
  | QuestionAnswer => question_rest k
  end.

Definition known_rest (k : Outcome -> Async unit) : Prop :=
  transcription_rest k \/ question_rest k.

(** Every outstanding request was posted by one of the two handlers. *)
Definition well_formed (c : Config) : Prop := Forall known_rest (inflight c).

(** The errors handed to [console.error] among some effects. *)
Fixpoint logged (out : list Effect) : list JsVal :=
  match out with
  | [] => []
  | EConsoleError _ error :: rest => error :: logged rest
  | _ :: rest => logged rest
  end.

(** The fields a question leaves alone. *)
Definition same_context (s s' : State) : Prop :=
  summary s' = summary s /\ question s' = question s
  /\ selectedAudio s' = selectedAudio s.

(** A location that one of the radio buttons offers. *)
Definition offered (u : string) : Prop :=
  exists file, In file audioFiles /\ url file = u.

(** The two shapes of request the page is meant to post. *)
Definition known_request (r : string * JsVal) : Prop :=
  (exists file,
     In file audioFiles
     /\ r = (transcription_endpoint, JObj [("audioUrl", JStr (url file))]))
  \/ (exists q,
        q <> "" /\ r = (question_endpoint, JObj [("question", JStr q)])).

Definition is_settle (ev : Event) : bool :=
  match ev with
  | Settle _ _ => true
  | _ => false
  end.

Definition is_resolution (ev : Event) : bool :=
  match ev with
  | Settle _ (Resolved _) => true
  | _ => false
  end.

Definition is_typing (ev : Event) : bool :=
  match ev with
  | TypeQuestion _ => true
  | _ => false
  end.

(** How many of the events are a request settling. *)
Definition settled (evs : list Event) : nat := length (filter is_settle evs).

(** The list of outstanding requests once the [i]-th settled. *)
Definition removed {A : Type} (i : nat) (l : list A) : list A :=
  firstn i l ++ skipn (S i) l.

(** Event [ev] invokes handler [h]: a direct call, or a click on its
    button while the button is enabled. *)
Definition trigger (ev : Event) (h : Handler) (c : Config) : Prop :=
  ev = Call h \/ (ev = Click h /\ disabled h (store c) = false).

(** The error with which the [try] block of [handleQuestionAnswer] is
    left, when it is: the rejection, or the exception of the read. *)
Definition answer_failure (o : Outcome) : option JsVal :=
  match o with
  | Rejected e => Some e
  | Resolved d => match get_member d "answer" with
                  | inl _ => None
                  | inr e => Some e
                  end
  end.

(** The moves of the page, one rule per path through the code: the two
    inputs, a handler refusing, a handler posting its request, and the
    four ways a request of a handler settles. *)
Inductive transition (c : Config) : Event -> Config -> Prop :=
| t_pick (i : nat) (file : AudioFile) :
    nth_error audioFiles i = Some file ->
    transition c (PickAudio i) (with_store (setSelectedAudio (url file)) c)
| t_type (v : string) :
    transition c (TypeQuestion v) (with_store (setQuestion v) c)
| t_refuse (ev : Event) (h : Handler) :
    trigger ev h c ->
    guard h (store c) = false ->
    transition c ev
      {| store := store c; inflight := inflight c;
         trace := trace c ++ [EAlert (refusal h)] |}
| t_start (ev : Event) (h : Handler) (k : Outcome -> Async unit) :
    trigger ev h c ->
    guard h (store c) = true ->
    handler_rest h k ->
    transition c ev
      {| store := setLoading true (store c); inflight := inflight c ++ [k];
         trace := trace c ++ [request_of h (store c)] |}
| t_summary (i : nat) (d : JsVal) (k : Outcome -> Async unit) :
    nth_error (inflight c) i = Some k ->
    transcription_rest k ->
    transition c (Settle i (Resolved d))
      {| store := setLoading false (setSummary d (store c));
         inflight := removed i (inflight c);
         trace := trace c ++ [] |}
| t_transcription_failed (i : nat) (e : JsVal) (k : Outcome -> Async unit) :
    nth_error (inflight c) i = Some k ->
    transcription_rest k ->
    transition c (Settle i (Rejected e))
      {| store := setLoading false (store c);
         inflight := removed i (inflight c);
         trace := trace c ++ [EConsoleError "Error starting transcription:" e;
                              EAlert msg_transcription_failed] |}
| t_answer (i : nat) (d v : JsVal) (k : Outcome -> Async unit) :
    nth_error (inflight c) i = Some k ->
    question_rest k ->
    get_member d "answer" = inl v ->
    transition c (Settle i (Resolved d))
      {| store := setLoading false (setAnswer v (store c));
         inflight := removed i (inflight c);
         trace := trace c ++ [] |}
| t_answer_failed (i : nat) (o : Outcome) (e : JsVal) (k : Outcome -> Async unit) :
    nth_error (inflight c) i = Some k ->
    question_rest k ->
    answer_failure o = Some e ->
    transition c (Settle i o)
      {| store := setLoading false (store c);
         inflight := removed i (inflight c);
         trace := trace c ++ answer_read_failed e |}.

(* ------------------------------------------------------------------ *)
(** * Properties *)

(** ** Values and guards *)

Lemma truthy_str_false (s : string) : truthy (JStr s) = false <-> s = "".
Proof.
  simpl. destruct (String.eqb_spec s ""); simpl; split; congruence.
Qed.

Lemma truthy_str_true (s : string) : truthy (JStr s) = true <-> s <> "".
Proof.
  simpl. destruct (String.eqb_spec s ""); simpl; split; congruence.
Qed.

Lemma audio_selected_true (s : State) :
  audio_selected s = true <-> selectedAudio s <> "".
Proof. apply truthy_str_true. Qed.

Lemma can_ask_true (s : State) :
  can_ask s = true <-> truthy (summary s) = true /\ question s <> "".
Proof.
  unfold can_ask. rewrite andb_true_iff, truthy_str_true. tauto.
Qed.

Lemma field_get_member (d : JsVal) (key : string) (v : JsVal) :
  field d key = Some v -> get_member d key = inl v.
Proof.
  destruct d; simpl; try discriminate.
  intros ->. reflexivity.
Qed.

Lemma get_member_defined (d : JsVal) (key : string) :
  d <> JNull -> d <> JUndefined ->
  get_member d key = inl (match field d key with Some v => v | None => JUndefined end).
Proof.
  intros Hn Hu. destruct d; try congruence; simpl; try reflexivity.
  destruct (assoc key props); reflexivity.
Qed.

Lemma get_member_nullish (d : JsVal) (key : string) :
  d = JNull \/ d = JUndefined -> exists e, get_member d key = inr e.
Proof. intros [-> | ->]; simpl; eauto. Qed.

(** ** The two phases of each handler *)

Lemma handleTranscription_refuses (s : State) :
  audio_selected s = false ->
  run (handleTranscription s) s = (s, [EAlert msg_select_audio], Returned).
Proof.
  unfold audio_selected, handleTranscription. intros ->. reflexivity.
Qed.

Lemma handleTranscription_starts (s : State) :
  audio_selected s = true ->
  exists k,
    run (handleTranscription s) s
      = (setLoading true s, [transcription_request s], Waiting k)
    /\ (forall d s',
          run (k (Resolved d)) s'
            = (setLoading false (setSummary d s'), [], Returned))
    /\ (forall e s',
          run (k (Rejected e)) s'
            = (setLoading false s',
               [EConsoleError "Error starting transcription:" e;
                EAlert msg_transcription_failed],
               Returned)).
Proof.
  unfold audio_selected, handleTranscription. intros ->. simpl.
  eexists. split; [reflexivity |]. split; intros; reflexivity.
Qed.

Lemma handleQuestionAnswer_refuses (s : State) :
  can_ask s = false ->
  run (handleQuestionAnswer s) s = (s, [EAlert msg_incomplete], Returned).
Proof.
  unfold can_ask, handleQuestionAnswer. intros H.
  rewrite <- negb_andb, H. reflexivity.
Qed.

Lemma handleQuestionAnswer_starts (s : State) :
  can_ask s = true ->
  exists k,
    run (handleQuestionAnswer s) s
      = (setLoading true s, [question_request s], Waiting k)
    /\ (forall d s',
          run (k (Resolved d)) s'
            = match get_member d "answer" with
              | inl v => (setLoading false (setAnswer v s'), [], Returned)
              | inr e => (setLoading false s', answer_read_failed e, Returned)
              end)
    /\ (forall e s',
          run (k (Rejected e)) s'
            = (setLoading false s', answer_read_failed e, Returned)).
Proof.
  unfold can_ask, handleQuestionAnswer. intros H.
  rewrite <- negb_andb, H. simpl.
  eexists. split; [reflexivity |]. split; intros; [| reflexivity].
  cbn [bind axios_post catch finally]. unfold member.
  destruct (get_member d "answer"); reflexivity.
Qed.

(** Running to the end is running to the [await] and then resuming. *)
Lemma exec_run (p : Async unit) (o : Outcome) (s : State) :
  exec p o s
  = match run p s with
    | (s1, out1, Returned) => (s1, out1, None)
    | (s1, out1, Uncaught e) => (s1, out1, Some e)
    | (s1, out1, Waiting k) =>
        let '(s2, out2, r) := exec (k o) o s1 in (s2, out1 ++ out2, r)
    end.
Proof.
  revert s. induction p as [a | e | act p IH | target body k IH]; intros s.
  - reflexivity.
  - reflexivity.
  - simpl. destruct (apply_act act s) as [s1 out1]. rewrite IH.
    destruct (run p s1) as [[s2 out2] [| e | k]]; try reflexivity.
    destruct (exec (k o) o s2) as [[s3 out3] r].
    rewrite app_assoc. reflexivity.
  - simpl. destruct (exec (k o) o s) as [[s2 out2] r]. reflexivity.
Qed.

(** A resumed handler that returns without awaiting again. *)
Lemma exec_returned (p : Async unit) (o : Outcome) (s s1 : State) (out : list Effect) :
  run p s = (s1, out, Returned) -> exec p o s = (s1, out, None).
Proof. intros H. rewrite exec_run, H. reflexivity. Qed.

Lemma exec_transcription_refused (s : State) (o : Outcome) :
  audio_selected s = false ->
  exec (handleTranscription s) o s = (s, [EAlert msg_select_audio], None).
Proof.
  intros H. apply exec_returned, handleTranscription_refuses, H.
Qed.

Lemma exec_transcription_resolved (s : State) (d : JsVal) :
  audio_selected s = true ->
  exec (handleTranscription s) (Resolved d) s
  = (setLoading false (setSummary d (setLoading true s)),
     [transcription_request s], None).
Proof.
  intros H. destruct (handleTranscription_starts s H) as (k & Hk & Hok & _).
  rewrite exec_run, Hk, (exec_returned _ _ _ _ _ (Hok d _)). reflexivity.
Qed.

Lemma exec_transcription_rejected (s : State) (e : JsVal) :
  audio_selected s = true ->
  exec (handleTranscription s) (Rejected e) s
  = (setLoading false (setLoading true s),
     [transcription_request s;
      EConsoleError "Error starting transcription:" e;
      EAlert msg_transcription_failed], None).
Proof.
  intros H. destruct (handleTranscription_starts s H) as (k & Hk & _ & Hko).
  rewrite exec_run, Hk, (exec_returned _ _ _ _ _ (Hko e _)). reflexivity.
Qed.

Lemma exec_question_refused (s : State) (o : Outcome) :
  can_ask s = false ->
  exec (handleQuestionAnswer s) o s = (s, [EAlert msg_incomplete], None).
Proof.
  intros H. apply exec_returned, handleQuestionAnswer_refuses, H.
Qed.

Lemma exec_question_resolved (s : State) (d : JsVal) :
  can_ask s = true ->
  exec (handleQuestionAnswer s) (Resolved d) s
  = match get_member d "answer" with
    | inl v => (setLoading false (setAnswer v (setLoading true s)),
                [question_request s], None)
    | inr e => (setLoading false (setLoading true s),
                question_request s :: answer_read_failed e, None)
    end.
Proof.
  intros H. destruct (handleQuestionAnswer_starts s H) as (k & Hk & Hok & _).
  rewrite exec_run, Hk. specialize (Hok d (setLoading true s)).
  destruct (get_member d "answer");
    rewrite (exec_returned _ _ _ _ _ Hok); reflexivity.
Qed.

Lemma exec_question_rejected (s : State) (e : JsVal) :
  can_ask s = true ->
  exec (handleQuestionAnswer s) (Rejected e) s
  = (setLoading false (setLoading true s),
     question_request s :: answer_read_failed e, None).
Proof.
  intros H. destruct (handleQuestionAnswer_starts s H) as (k & Hk & _ & Hko).
  rewrite exec_run, Hk, (exec_returned _ _ _ _ _ (Hko e _)). reflexivity.
Qed.

(** ** Invariants of the page *)

(** Every handler either refuses before touching anything but the alert
    box, or raises the flag, posts one request and suspends with a
    releasing continuation. *)
Lemma handler_phases (h : Handler) (s : State) :
  (exists msg, run (handler h s) s = (s, [EAlert msg], Returned))
  \/ (exists req k,
        run (handler h s) s = (setLoading true s, [req], Waiting k)
        /\ releases k).
Proof.
  destruct h; simpl.
  - destruct (audio_selected s) eqn:G.
    + right. destruct (handleTranscription_starts s G) as (k & Hk & Hok & Hko).
      exists (transcription_request s), k. split; [exact Hk |].
      intros [d | e] s'; [rewrite Hok | rewrite Hko]; eauto.
    + left. eexists. apply handleTranscription_refuses, G.
  - destruct (can_ask s) eqn:G.
    + right. destruct (handleQuestionAnswer_starts s G) as (k & Hk & Hok & Hko).
      exists (question_request s), k. split; [exact Hk |].
      intros [d | e] s'; [rewrite Hok | rewrite Hko]; eauto.
      destruct (get_member d "answer"); eauto.
    + left. eexists. apply handleQuestionAnswer_refuses, G.
Qed.

Section Invariants.

Variable allowed : Event -> bool.
Variable Inv : Config -> Prop.
Hypothesis Preserve :
  forall c ev c', allowed ev = true -> Inv c -> step c ev = Some c' -> Inv c'.

Lemma steps_invariant (evs : list Event) :
  forall c c',
    forallb allowed evs = true -> Inv c -> steps c evs = Some c' -> Inv c'.
Proof.
  induction evs as [| ev evs IH]; simpl; intros c c' Hal Hc Hrun.
  - congruence.
  - apply andb_true_iff in Hal as [Hev Hal].
    destruct (step c ev) as [c1 |] eqn:E; [| discriminate].
    eauto.
Qed.

End Invariants.

Lemma Forall_drop {A : Type} (P : A -> Prop) (l : list A) (i : nat) :
  Forall P l -> Forall P (firstn i l ++ skipn (S i) l).
Proof.
  intros H. revert i.
  induction H as [| x l Hx Hl IH]; intros [| i]; simpl; auto.
Qed.

Lemma nth_error_releases (l : list (Outcome -> Async unit)) i k :
  Forall releases l -> nth_error l i = Some k -> releases k.
Proof.
  intros H Hk. eapply Forall_forall; [exact H |]. eapply nth_error_In; eauto.
Qed.

Lemma never_stuck_step (c : Config) (ev : Event) (c' : Config) :
  never_stuck c -> step c ev = Some c' -> never_stuck c'.
Proof.
  intros [Hall Hidle] Hstep. destruct ev as [i | v | h | h | i o]; simpl in Hstep.
  - destruct (nth_error audioFiles i); inversion Hstep; subst. split; assumption.
  - inversion Hstep; subst. split; assumption.
  - destruct (disabled h (store c)); [discriminate |].
    inversion Hstep; subst; clear Hstep. unfold launch.
    destruct (handler_phases h (store c)) as [[msg E] | (req & k & E & Hk)];
      rewrite E; simpl; split; auto.
    + apply Forall_app; split; auto.
    + intros Hnil. apply app_eq_nil in Hnil as [_ Hnil]. discriminate.
  - inversion Hstep; subst; clear Hstep. unfold launch.
    destruct (handler_phases h (store c)) as [[msg E] | (req & k & E & Hk)];
      rewrite E; simpl; split; auto.
    + apply Forall_app; split; auto.
    + intros Hnil. apply app_eq_nil in Hnil as [_ Hnil]. discriminate.
  - destruct (nth_error (inflight c) i) as [k |] eqn:Ek; [| discriminate].
    inversion Hstep; subst; clear Hstep. unfold launch.
    destruct (nth_error_releases _ _ _ Hall Ek o (store (drop_inflight i c)))
      as (s' & out & E & Hlow).
    rewrite E; simpl. split; [apply Forall_drop; assumption | auto].
Qed.

Lemma flag_tracks_request_step (c : Config) (ev : Event) (c' : Config) :
  from_page ev = true ->
  flag_tracks_request c -> step c ev = Some c' -> flag_tracks_request c'.
Proof.
  intros Hpage [Hall Hlen] Hstep.
  destruct ev as [i | v | h | h | i o]; simpl in Hstep; try discriminate Hpage.
  - destruct (nth_error audioFiles i); inversion Hstep; subst. split; assumption.
  - inversion Hstep; subst. split; assumption.
  - destruct (disabled h (store c)) eqn:D; [discriminate |].
    assert (Hlow : loading (store c) = false).
    { destruct h; simpl in D; apply orb_false_iff in D; tauto. }
    rewrite Hlow in Hlen. apply length_zero_iff_nil in Hlen.
    inversion Hstep; subst; clear Hstep. unfold launch.
    destruct (handler_phases h (store c)) as [[msg E] | (req & k & E & Hk)];
      rewrite E; simpl; rewrite Hlen; split.
    + constructor.
    + simpl. rewrite Hlow. reflexivity.
    + repeat constructor. exact Hk.
    + reflexivity.
  - destruct (nth_error (inflight c) i) as [k |] eqn:Ek; [| discriminate].
    inversion Hstep; subst; clear Hstep. unfold launch.
    destruct (nth_error_releases _ _ _ Hall Ek o (store (drop_inflight i c)))
      as (s' & out & E & Hlow).
    rewrite E; simpl. split; [apply Forall_drop; assumption |].
    simpl. rewrite Hlow.
    destruct (inflight c) as [| k0 [| k1 rest]]; simpl in *.
    + destruct i; discriminate.
    + destruct i as [| i]; [reflexivity | destruct i; discriminate].
    + destruct (loading (store c)); discriminate.
Qed.

Lemma never_stuck_initial : never_stuck initialConfig.
Proof. split; [constructor | reflexivity]. Qed.

Lemma flag_tracks_request_initial : flag_tracks_request initialConfig.
Proof. split; [constructor | reflexivity]. Qed.

(* ------------------------------------------------------------------ *)
(** * The specified behaviour *)

(** ** Validation *)

(** C1: with [selectedAudio] unset, [handleTranscription] only shows the
    "Please select an audio file." alert: it returns at once, posts no
    request, and leaves every state cell as it was. *)
Theorem transcription_requires_audio (s : State) (H : selectedAudio s = "") :
  run (handleTranscription s) s = (s, [EAlert msg_select_audio], Returned)
  /\ forall o,
       exec (handleTranscription s) o s = (s, [EAlert msg_select_audio], None)
       /\ requests (effects (exec (handleTranscription s) o s)) = [].
Proof.
  assert (G : audio_selected s = false) by (apply truthy_str_false, H).
  split; [apply handleTranscription_refuses, G |].
  intros o. rewrite (exec_transcription_refused s o G). split; reflexivity.
Qed.

Lemma transcription_requires_audio_witness :
  selectedAudio initialState = ""
  /\ run (handleTranscription initialState) initialState
     = (initialState, [EAlert msg_select_audio], Returned).
Proof.
  split; [reflexivity |].
  apply (transcription_requires_audio initialState). reflexivity.
Defined.

(** C2: with [summary] unset or the question empty,
    [handleQuestionAnswer] only shows the "Please complete transcription
    and enter a question." alert: it returns at once, posts no request,
    and leaves the state as it was. *)
Theorem question_requires_summary_and_text (s : State)
    (H : summary s = JNull \/ question s = "") :
  run (handleQuestionAnswer s) s = (s, [EAlert msg_incomplete], Returned)
  /\ forall o,
       exec (handleQuestionAnswer s) o s = (s, [EAlert msg_incomplete], None)
       /\ requests (effects (exec (handleQuestionAnswer s) o s)) = [].
Proof.
  assert (G : can_ask s = false).
  { unfold can_ask. destruct H as [H | H].
    - rewrite H. reflexivity.
    - apply truthy_str_false in H. rewrite H. apply andb_false_r. }
  split; [apply handleQuestionAnswer_refuses, G |].
  intros o. rewrite (exec_question_refused s o G). split; reflexivity.
Qed.

Lemma question_requires_summary_and_text_witness :
  (summary initialState = JNull \/ question initialState = "")
  /\ run (handleQuestionAnswer initialState) initialState
     = (initialState, [EAlert msg_incomplete], Returned).
Proof.
  split; [left; reflexivity |].
  apply (question_requires_summary_and_text initialState). left. reflexivity.
Defined.

(** The guard of [handleQuestionAnswer] tests truthiness, so a summary
    that was stored but is falsy (an empty body, [0], [false]) is
    refused like an unset one. *)
Lemma question_refused_on_falsy_summary (s : State) :
  truthy (summary s) = false ->
  run (handleQuestionAnswer s) s = (s, [EAlert msg_incomplete], Returned).
Proof.
  intros H. apply handleQuestionAnswer_refuses. unfold can_ask.
  rewrite H. reflexivity.
Qed.

(** ** The busy flag *)

(** C3: for both handlers, an invocation either returns before any
    request or raises [loading], posts and suspends; the suspended rest
    of the handler lowers [loading] and returns whatever the outcome and
    whatever happened to the state meanwhile.  Driven through the page,
    [loading] is raised exactly while a request is outstanding (and there
    is at most one); under any interleaving, direct calls included,
    [loading] is lowered whenever nothing is outstanding. *)
Theorem busy_flag_released :
  (forall h s,
     match run (handler h s) s with
     | (s1, out, Returned) => s1 = s /\ requests out = []
     | (s1, out, Uncaught _) => False
     | (s1, out, Waiting k) =>
         loading s1 = true
         /\ forall o s2, exists s3 out',
              run (k o) s2 = (s3, out', Returned) /\ loading s3 = false
     end)
  /\ (forall evs c,
        forallb from_page evs = true ->
        steps initialConfig evs = Some c ->
        (loading (store c) = true <-> inflight c <> [])
        /\ length (inflight c) <= 1)
  /\ (forall evs c,
        steps initialConfig evs = Some c ->
        inflight c = [] -> loading (store c) = false).
Proof.
  split; [| split].
  - intros h s.
    destruct (handler_phases h s) as [[msg E] | (req & k & E & Hk)]; rewrite E.
    + split; reflexivity.
    + split; [reflexivity | exact Hk].
  - intros evs c Hpage Hrun.
    destruct (steps_invariant from_page flag_tracks_request
                (fun c ev c' Hev => flag_tracks_request_step c ev c' Hev)
                evs initialConfig c Hpage flag_tracks_request_initial Hrun)
      as [_ Hlen].
    destruct (loading (store c)), (inflight c) as [| k rest];
      simpl in Hlen; try discriminate; (split; [split; congruence | simpl; lia]).
  - intros evs c Hrun.
    assert (Hall : forallb (fun _ => true) evs = true).
    { clear. induction evs; simpl; auto. }
    apply (steps_invariant (fun _ => true) never_stuck
             (fun c ev c' _ => never_stuck_step c ev c')
             evs initialConfig c Hall never_stuck_initial Hrun).
Qed.

Lemma busy_flag_released_witness :
  exists c,
    steps initialConfig [PickAudio 0; Click Transcription; TypeQuestion "q"] = Some c
    /\ (loading (store c) = true <-> inflight c <> [])
    /\ length (inflight c) <= 1.
Proof.
  eexists. split; [reflexivity |].
  apply (proj1 (proj2 busy_flag_released)
           [PickAudio 0; Click Transcription; TypeQuestion "q"]);
    reflexivity.
Defined.

(** ** Transcription *)

(** C4: with a file selected, a resolved transcription request stores
    the response body as it is in [summary], also when the state changed
    while the request was outstanding. *)
Theorem transcription_stores_response_body (s : State) (d : JsVal)
    (H : selectedAudio s <> "") :
  summary (final (exec (handleTranscription s) (Resolved d) s)) = d
  /\ exists k,
       run (handleTranscription s) s
         = (setLoading true s, [transcription_request s], Waiting k)
       /\ forall s', summary (final (run (k (Resolved d)) s')) = d.
Proof.
  apply audio_selected_true in H. split.
  - rewrite (exec_transcription_resolved s d H). reflexivity.
  - destruct (handleTranscription_starts s H) as (k & Hk & Hok & _).
    exists k. split; [exact Hk |]. intros s'. rewrite Hok. reflexivity.
Qed.

Lemma transcription_stores_response_body_witness :
  selectedAudio sample_session <> ""
  /\ summary (final (exec (handleTranscription sample_session)
                       (Resolved (JObj [("status", JStr "done")]))
                       sample_session))
     = JObj [("status", JStr "done")].
Proof.
  split; [discriminate |].
  apply (transcription_stores_response_body sample_session). discriminate.
Defined.

(** C5: with a file selected, a rejected transcription request is
    reported with the "Failed to process the audio file." alert and
    [summary] keeps the value it had, whether unset or an earlier
    response. *)
Theorem transcription_failure_keeps_summary (s : State) (e : JsVal)
    (H : selectedAudio s <> "") :
  alerts (effects (exec (handleTranscription s) (Rejected e) s))
    = [msg_transcription_failed]
  /\ summary (final (exec (handleTranscription s) (Rejected e) s)) = summary s
  /\ exists k,
       run (handleTranscription s) s
         = (setLoading true s, [transcription_request s], Waiting k)
       /\ forall s', summary (final (run (k (Rejected e)) s')) = summary s'.
Proof.
  apply audio_selected_true in H.
  rewrite (exec_transcription_rejected s e H).
  split; [reflexivity | split; [reflexivity |]].
  destruct (handleTranscription_starts s H) as (k & Hk & _ & Hko).
  exists k. split; [exact Hk |]. intros s'. rewrite Hko. reflexivity.
Qed.

Lemma transcription_failure_keeps_summary_witness :
  selectedAudio sample_session <> ""
  /\ alerts (effects (exec (handleTranscription sample_session)
                        (Rejected (JStr "Network Error")) sample_session))
     = [msg_transcription_failed]
  /\ summary (final (exec (handleTranscription sample_session)
                       (Rejected (JStr "Network Error")) sample_session))
     = summary sample_session.
Proof.
  split; [discriminate |].
  destruct (transcription_failure_keeps_summary sample_session
              (JStr "Network Error")) as (Ha & Hs & _);
    [discriminate | split; assumption].
Defined.

(** C8: two resolved transcriptions in a row with the same selection
    leave the second body alone in [summary]: the final state is the
    intermediate one with [summary] replaced, and is the state the second
    request alone would have produced. *)
Theorem transcription_overwrites (s : State) (d1 d2 : JsVal)
    (H : selectedAudio s <> "") :
  let s1 := final (exec (handleTranscription s) (Resolved d1) s) in
  let s2 := final (exec (handleTranscription s1) (Resolved d2) s1) in
  selectedAudio s1 = selectedAudio s
  /\ summary s2 = d2
  /\ s2 = setSummary d2 s1
  /\ s2 = final (exec (handleTranscription s) (Resolved d2) s).
Proof.
  apply audio_selected_true in H. intros s1 s2.
  assert (E1 : s1 = setLoading false (setSummary d1 (setLoading true s))).
  { subst s1. rewrite (exec_transcription_resolved s d1 H). reflexivity. }
  assert (G1 : audio_selected s1 = true) by (rewrite E1; exact H).
  assert (E2 : s2 = setLoading false (setSummary d2 (setLoading true s1))).
  { subst s2. rewrite (exec_transcription_resolved s1 d2 G1). reflexivity. }
  rewrite (exec_transcription_resolved s d2 H), E2, E1.
  split; [| split; [| split]]; reflexivity.
Qed.

Lemma transcription_overwrites_witness :
  selectedAudio sample_session <> ""
  /\ summary
       (final (exec (handleTranscription
                       (final (exec (handleTranscription sample_session)
                                 (Resolved (JStr "first")) sample_session)))
                 (Resolved (JStr "second"))
                 (final (exec (handleTranscription sample_session)
                           (Resolved (JStr "first")) sample_session))))
     = JStr "second".
Proof.
  split; [discriminate |].
  apply (transcription_overwrites sample_session (JStr "first") (JStr "second")).
  discriminate.
Defined.

(** C9: whatever the outcome (refused, resolved or rejected),
    [handleTranscription] leaves [answer], [question] and [selectedAudio]
    as they were; resumed after the request, it leaves them as it finds
    them. *)
Theorem transcription_frame (s : State) (o : Outcome) :
  same_inputs s (final (exec (handleTranscription s) o s))
  /\ match run (handleTranscription s) s with
     | (s1, _, Waiting k) =>
         same_inputs s s1 /\ forall s', same_inputs s' (final (run (k o) s'))
     | (s1, _, _) => same_inputs s s1
     end.
Proof.
  destruct (audio_selected s) eqn:G.
  - destruct (handleTranscription_starts s G) as (k & Hk & Hok & Hko).
    rewrite Hk. destruct o as [d | e].
    + rewrite (exec_transcription_resolved s d G).
      split; [| split]; try (unfold same_inputs; tauto).
      intros s'. rewrite Hok. unfold same_inputs. tauto.
    + rewrite (exec_transcription_rejected s e G).
      split; [| split]; try (unfold same_inputs; tauto).
      intros s'. rewrite Hko. unfold same_inputs. tauto.
  - rewrite (exec_transcription_refused s o G),
      (handleTranscription_refuses s G).
    unfold same_inputs. tauto.
Qed.

(** ** Question answering *)

(** C6: with a truthy [summary] and a typed question, a resolved request
    stores in [answer] the value that reading the [answer] field of the
    response body yields (the field itself when the body has one); a
    rejected request is reported with the "Failed to fetch the answer."
    alert and [answer] keeps its value. *)
Theorem question_answer_outcomes (s : State)
    (Hsum : truthy (summary s) = true) (Hq : question s <> "") :
  (forall d v,
     get_member d "answer" = inl v ->
     answer (final (exec (handleQuestionAnswer s) (Resolved d) s)) = v)
  /\ (forall d v,
        field d "answer" = Some v ->
        answer (final (exec (handleQuestionAnswer s) (Resolved d) s)) = v)
  /\ (forall e,
        alerts (effects (exec (handleQuestionAnswer s) (Rejected e) s))
          = [msg_answer_failed]
        /\ answer (final (exec (handleQuestionAnswer s) (Rejected e) s))
           = answer s).
Proof.
  assert (G : can_ask s = true) by (apply can_ask_true; auto).
  assert (R : forall d v,
             get_member d "answer" = inl v ->
             answer (final (exec (handleQuestionAnswer s) (Resolved d) s)) = v).
  { intros d v Hv. rewrite (exec_question_resolved s d G), Hv. reflexivity. }
  split; [exact R | split].
  - intros d v Hv. apply R, field_get_member, Hv.
  - intros e. rewrite (exec_question_rejected s e G). split; reflexivity.
Qed.

Lemma question_answer_outcomes_witness :
  truthy (summary sample_session) = true
  /\ question sample_session <> ""
  /\ field (JObj [("answer", JStr "Ibuprofen")]) "answer" = Some (JStr "Ibuprofen")
  /\ answer (final (exec (handleQuestionAnswer sample_session)
                      (Resolved (JObj [("answer", JStr "Ibuprofen")]))
                      sample_session))
     = JStr "Ibuprofen".
Proof.
  split; [reflexivity |]. split; [discriminate |]. split; [reflexivity |].
  apply (proj1 (proj2 (question_answer_outcomes sample_session
                         ltac:(reflexivity) ltac:(discriminate)))).
  reflexivity.
Defined.

(** C7: an invocation of [handleQuestionAnswer] that passes the guard
    posts exactly one request, to the question endpoint, whose body is an
    object with the single property [question] holding the typed text;
    one that fails the guard posts nothing.  Neither [summary] nor any
    identifier is part of the body. *)
Theorem question_request_shape (s : State) (o : Outcome) :
  requests (effects (exec (handleQuestionAnswer s) o s))
  = if can_ask s
    then [(question_endpoint, JObj [("question", JStr (question s))])]
    else [].
Proof.
  destruct (can_ask s) eqn:G.
  - destruct o as [d | e].
    + rewrite (exec_question_resolved s d G).
      destruct (get_member d "answer"); reflexivity.
    + rewrite (exec_question_rejected s e G). reflexivity.
  - rewrite (exec_question_refused s o G). reflexivity.
Qed.

(** A body that is the JSON value [null] has no [answer] field, yet the
    read [response.data.answer] throws; the [catch] block reports the
    failure and [answer] keeps its value. *)
Lemma absent_answer_null_body :
  can_ask sample_session = true
  /\ field JNull "answer" = None
  /\ exec (handleQuestionAnswer sample_session) (Resolved JNull) sample_session
     = (sample_session,
        [ERequest question_endpoint (JObj [("question", JStr "What medication?")]);
         EConsoleError "Error fetching answer:"
           (TypeError "Cannot read properties of null (reading 'answer')");
         EAlert msg_answer_failed],
        None)
  /\ ~ absent_answer_reads_undefined_always.
Proof.
  split; [reflexivity |]. split; [reflexivity |]. split; [reflexivity |].
  intros C. specialize (C sample_session JNull eq_refl eq_refl).
  discriminate C.
Qed.

(** C10 (amended): with a truthy [summary] and a typed question, a
    resolved request whose body has no [answer] field and is neither
    [null] nor [undefined] sets [answer] to [undefined]; for a [null] or
    [undefined] body the read throws, the failure alert is shown and
    [answer] keeps its value. *)
Theorem absent_answer_reads_undefined (s : State) (d : JsVal)
    (Hask : can_ask s = true) (Habsent : field d "answer" = None) :
  (d <> JNull -> d <> JUndefined ->
   exec (handleQuestionAnswer s) (Resolved d) s
   = (setLoading false (setAnswer JUndefined (setLoading true s)),
      [question_request s], None))
  /\ (d = JNull \/ d = JUndefined ->
      alerts (effects (exec (handleQuestionAnswer s) (Resolved d) s))
        = [msg_answer_failed]
      /\ answer (final (exec (handleQuestionAnswer s) (Resolved d) s))
         = answer s).
Proof.
  rewrite (exec_question_resolved s d Hask). split.
  - intros Hn Hu. rewrite (get_member_defined d "answer" Hn Hu), Habsent.
    reflexivity.
  - intros Hd. destruct (get_member_nullish d "answer" Hd) as [e ->].
    split; reflexivity.
Qed.

Lemma absent_answer_reads_undefined_witness :
  can_ask sample_session = true
  /\ field (JObj [("text", JStr "Ibuprofen")]) "answer" = None
  /\ answer (final (exec (handleQuestionAnswer sample_session)
                      (Resolved (JObj [("text", JStr "Ibuprofen")]))
                      sample_session))
     = JUndefined.
Proof.
  split; [reflexivity |]. split; [reflexivity |].
  rewrite (proj1 (absent_answer_reads_undefined sample_session
                    (JObj [("text", JStr "Ibuprofen")]) eq_refl eq_refl));
    [reflexivity | discriminate | discriminate].
Defined.

(** ** The scenarios of the specification, run through the page *)

Example scenario_1 :
  option_map store
    (steps initialConfig
       [PickAudio 0; Click Transcription;
        Settle 0 (Resolved (JObj [("status", JStr "done"); ("text", JStr "hello")]))])
  = Some {| selectedAudio := "s3://dax-health-transcribe/Sample_data.mp3";
            question := ""; answer := JStr "";
            summary := JObj [("status", JStr "done"); ("text", JStr "hello")];
            loading := false |}.
Proof. reflexivity. Qed.

Example scenario_2 :
  option_map (fun c => (store c, trace c, length (inflight c)))
    (steps initialConfig [Call Transcription])
  = Some (initialState, [EAlert msg_select_audio], 0).
Proof. reflexivity. Qed.

Example scenario_2_button_disabled :
  steps initialConfig [Click Transcription] = None.
Proof. reflexivity. Qed.

Example scenario_3 :
  option_map (fun c => answer (store c))
    (steps initialConfig
       [PickAudio 0; Click Transcription;
        Settle 0 (Resolved (JObj [("status", JStr "done")]));
        TypeQuestion "What medication?"; Click QuestionAnswer;
        Settle 0 (Resolved (JObj [("answer", JStr "Ibuprofen")]))])
  = Some (JStr "Ibuprofen").
Proof. reflexivity. Qed.

Example scenario_4 :
  option_map (fun c => (summary (store c), loading (store c), alerts (trace c)))
    (steps initialConfig
       [PickAudio 0; Click Transcription;
        Settle 0 (Rejected (JStr "Network Error"))])
  = Some (JNull, false, [msg_transcription_failed]).
Proof. reflexivity. Qed.

(* ------------------------------------------------------------------ *)
(** * Further properties of the handlers *)

(** The two phases of either handler, in one statement. *)
Lemma handler_cases (h : Handler) (s : State) :
  (guard h s = false
   /\ run (handler h s) s = (s, [EAlert (refusal h)], Returned))
  \/ (guard h s = true
      /\ exists k,
           run (handler h s) s = (setLoading true s, [request_of h s], Waiting k)
           /\ handler_rest h k).
Proof.
  destruct h; simpl.
  - destruct (audio_selected s) eqn:G; [right | left]; split; trivial.
    + destruct (handleTranscription_starts s G) as (k & Hk & Hrest).
      exists k. split; [exact Hk | exact Hrest].
    + apply handleTranscription_refuses, G.
  - destruct (can_ask s) eqn:G; [right | left]; split; trivial.
    + destruct (handleQuestionAnswer_starts s G) as (k & Hk & Hrest).
      exists k. split; [exact Hk | exact Hrest].
    + apply handleQuestionAnswer_refuses, G.
Qed.

Lemma setLoading_idle (s : State) :
  loading s = false -> setLoading false (setLoading true s) = s.
Proof. destruct s; simpl; intros ->; reflexivity. Qed.

(** X1: [handleQuestionAnswer] never touches [summary], [question] or
    [selectedAudio]: not when it refuses, not when the request resolves
    (whatever the body), not when it is rejected; and its resumed rest
    leaves them as it finds them. *)
Theorem question_frame (s : State) (o : Outcome) :
  same_context s (final (exec (handleQuestionAnswer s) o s))
  /\ match run (handleQuestionAnswer s) s with
     | (s1, _, Waiting k) =>
         same_context s s1 /\ forall s', same_context s' (final (run (k o) s'))
     | (s1, _, _) => same_context s s1
     end.
Proof.
  destruct (can_ask s) eqn:G.
  - destruct (handleQuestionAnswer_starts s G) as (k & Hk & Hok & Hko).
    rewrite Hk. destruct o as [d | e].
    + rewrite (exec_question_resolved s d G).
      split; [| split]; try (unfold same_context; tauto).
      * destruct (get_member d "answer"); unfold same_context; tauto.
      * intros s'. rewrite Hok.
        destruct (get_member d "answer"); unfold same_context; tauto.
    + rewrite (exec_question_rejected s e G).
      split; [| split]; try (unfold same_context; tauto).
      intros s'. rewrite Hko. unfold same_context. tauto.
  - rewrite (exec_question_refused s o G), (handleQuestionAnswer_refuses s G).
    unfold same_context. tauto.
Qed.

(** X2: An invocation of [handleTranscription] that passes the guard posts
    exactly one request, to the transcription endpoint, whose body is an
    object with the single property [audioUrl] holding the selected
    location; a refused one posts nothing.  A failure is not retried. *)
Theorem transcription_request_shape (s : State) (o : Outcome) :
  requests (effects (exec (handleTranscription s) o s))
  = if audio_selected s
    then [(transcription_endpoint, JObj [("audioUrl", JStr (selectedAudio s))])]
    else [].
Proof.
  destruct (audio_selected s) eqn:G.
  - destruct o as [d | e].
    + rewrite (exec_transcription_resolved s d G). reflexivity.
    + rewrite (exec_transcription_rejected s e G). reflexivity.
  - rewrite (exec_transcription_refused s o G). reflexivity.
Qed.

(** X3: Each invocation shows at most one alert, and none exactly when its
    request resolved and, for the question, the read of the answer did
    not throw. *)
Theorem alerts_shown (s : State) (o : Outcome) :
  alerts (effects (exec (handleTranscription s) o s))
  = (if audio_selected s
     then match o with
          | Resolved _ => []
          | Rejected _ => [msg_transcription_failed]
          end
     else [msg_select_audio])
  /\ alerts (effects (exec (handleQuestionAnswer s) o s))
     = (if can_ask s
        then match o with
             | Resolved d => match get_member d "answer" with
                             | inl _ => []
                             | inr _ => [msg_answer_failed]
                             end
             | Rejected _ => [msg_answer_failed]
             end
        else [msg_incomplete]).
Proof.
  split.
  - destruct (audio_selected s) eqn:G.
    + destruct o as [d | e].
      * rewrite (exec_transcription_resolved s d G). reflexivity.
      * rewrite (exec_transcription_rejected s e G). reflexivity.
    + rewrite (exec_transcription_refused s o G). reflexivity.
  - destruct (can_ask s) eqn:G.
    + destruct o as [d | e].
      * rewrite (exec_question_resolved s d G).
        destruct (get_member d "answer"); reflexivity.
      * rewrite (exec_question_rejected s e G). reflexivity.
    + rewrite (exec_question_refused s o G). reflexivity.
Qed.

(** X4: [console.error] receives the caught error itself: the rejection of
    the request, or the exception of the failed read of the answer.
    Nothing is logged when a handler refuses or succeeds. *)
Theorem errors_logged (s : State) (o : Outcome) :
  logged (effects (exec (handleTranscription s) o s))
  = (if audio_selected s
     then match o with
          | Resolved _ => []
          | Rejected e => [e]
          end
     else [])
  /\ logged (effects (exec (handleQuestionAnswer s) o s))
     = (if can_ask s
        then match o with
             | Resolved d => match get_member d "answer" with
                             | inl _ => []
                             | inr e => [e]
                             end
             | Rejected e => [e]
             end
        else []).
Proof.
  split.
  - destruct (audio_selected s) eqn:G.
    + destruct o as [d | e].
      * rewrite (exec_transcription_resolved s d G). reflexivity.
      * rewrite (exec_transcription_rejected s e G). reflexivity.
    + rewrite (exec_transcription_refused s o G). reflexivity.
  - destruct (can_ask s) eqn:G.
    + destruct o as [d | e].
      * rewrite (exec_question_resolved s d G).
        destruct (get_member d "answer"); reflexivity.
      * rewrite (exec_question_rejected s e G). reflexivity.
    + rewrite (exec_question_refused s o G). reflexivity.
Qed.

(** X5: Started while nothing is loading, an invocation whose request is
    rejected ends in the very state it started from: the user can retry
    as if nothing had happened. *)
Theorem rejected_run_restores_state (h : Handler) (s : State) (e : JsVal)
    (Hidle : loading s = false) :
  final (exec (handler h s) (Rejected e) s) = s.
Proof.
  destruct h; simpl.
  - destruct (audio_selected s) eqn:G.
    + rewrite (exec_transcription_rejected s e G).
      apply setLoading_idle, Hidle.
    + rewrite (exec_transcription_refused s _ G). reflexivity.
  - destruct (can_ask s) eqn:G.
    + rewrite (exec_question_rejected s e G).
      apply setLoading_idle, Hidle.
    + rewrite (exec_question_refused s _ G). reflexivity.
Qed.

Lemma rejected_run_restores_state_witness :
  loading sample_session = false
  /\ final (exec (handler QuestionAnswer sample_session)
              (Rejected (JStr "Network Error")) sample_session)
     = sample_session.
Proof.
  split; [reflexivity |].
  apply (rejected_run_restores_state QuestionAnswer sample_session). reflexivity.
Defined.

(** X6: Two answered questions in a row leave the second answer alone in
    [answer]; the final state is the one the second request alone would
    have produced, and [summary] is the one the questions were asked
    about. *)
Theorem answer_overwrites (s : State) (d1 d2 : JsVal) (v1 v2 : JsVal)
    (Hask : can_ask s = true)
    (H1 : get_member d1 "answer" = inl v1)
    (H2 : get_member d2 "answer" = inl v2) :
  let s1 := final (exec (handleQuestionAnswer s) (Resolved d1) s) in
  let s2 := final (exec (handleQuestionAnswer s1) (Resolved d2) s1) in
  answer s1 = v1
  /\ answer s2 = v2
  /\ summary s2 = summary s
  /\ s2 = final (exec (handleQuestionAnswer s) (Resolved d2) s).
Proof.
  intros s1 s2.
  assert (E1 : s1 = setLoading false (setAnswer v1 (setLoading true s))).
  { subst s1. rewrite (exec_question_resolved s d1 Hask), H1. reflexivity. }
  assert (G1 : can_ask s1 = true) by (rewrite E1; exact Hask).
  assert (E2 : s2 = setLoading false (setAnswer v2 (setLoading true s1))).
  { subst s2. rewrite (exec_question_resolved s1 d2 G1), H2. reflexivity. }
  rewrite (exec_question_resolved s d2 Hask), H2, E2, E1.
  split; [| split; [| split]]; reflexivity.
Qed.

Lemma answer_overwrites_witness :
  can_ask sample_session = true
  /\ get_member (JObj [("answer", JStr "Ibuprofen")]) "answer" = inl (JStr "Ibuprofen")
  /\ get_member (JStr "") "answer" = inl JUndefined
  /\ answer
       (final (exec (handleQuestionAnswer
                       (final (exec (handleQuestionAnswer sample_session)
                                 (Resolved (JObj [("answer", JStr "Ibuprofen")]))
                                 sample_session)))
                 (Resolved (JStr ""))
                 (final (exec (handleQuestionAnswer sample_session)
                           (Resolved (JObj [("answer", JStr "Ibuprofen")]))
                           sample_session))))
     = JUndefined.
Proof.
  split; [reflexivity |]. split; [reflexivity |]. split; [reflexivity |].
  apply (answer_overwrites sample_session
           (JObj [("answer", JStr "Ibuprofen")]) (JStr "")
           (JStr "Ibuprofen") JUndefined);
    reflexivity.
Defined.

(* ------------------------------------------------------------------ *)
(** * Further properties of the page *)

(** ** Every step follows one of the rules *)

Lemma step_transition (c : Config) (ev : Event) (c' : Config) :
  well_formed c -> step c ev = Some c' -> transition c ev c' /\ well_formed c'.
Proof.
  intros Hwf Hstep.
  assert (Hlaunch : forall h, trigger ev h c ->
            c' = launch (handler h (store c)) c ->
            transition c ev c' /\ well_formed c').
  { intros h Htr ->. unfold launch.
    destruct (handler_cases h (store c)) as [[G E] | (G & k & E & Hk)]; rewrite E.
    - split; [apply t_refuse; assumption | exact Hwf].
    - split; [apply t_start; assumption |].
      apply Forall_app; split; [exact Hwf |].
      constructor; [| constructor]. destruct h; [left | right]; exact Hk. }
  destruct ev as [i | v | h | h | i o]; simpl in Hstep.
  - destruct (nth_error audioFiles i) as [file |] eqn:E; inversion Hstep; subst.
    split; [apply t_pick, E | exact Hwf].
  - inversion Hstep; subst. split; [apply t_type | exact Hwf].
  - destruct (disabled h (store c)) eqn:D; [discriminate |].
    inversion Hstep; subst. apply (Hlaunch h); [right; auto | reflexivity].
  - inversion Hstep; subst. apply (Hlaunch h); [left; auto | reflexivity].
  - destruct (nth_error (inflight c) i) as [k |] eqn:Ek; [| discriminate].
    inversion Hstep; subst; clear Hstep.
    assert (Hk : known_rest k).
    { eapply Forall_forall; [exact Hwf | eapply nth_error_In; eauto]. }
    assert (Hwf' : Forall known_rest (removed i (inflight c)))
      by (apply Forall_drop, Hwf).
    unfold launch. simpl store.
    destruct Hk as [[Hok Hko] | [Hok Hko]]; destruct o as [d | e].
    + rewrite Hok. split; [| exact Hwf'].
      apply (t_summary c i d k); [exact Ek | split; assumption].
    + rewrite Hko. split; [| exact Hwf'].
      apply (t_transcription_failed c i e k); [exact Ek | split; assumption].
    + rewrite Hok. destruct (get_member d "answer") as [v | e] eqn:R.
      * split; [| exact Hwf'].
        apply (t_answer c i d v k); [exact Ek | split; assumption | exact R].
      * split; [| exact Hwf'].
        apply (t_answer_failed c i (Resolved d) e k);
          [exact Ek | split; assumption |].
        simpl. rewrite R. reflexivity.
    + rewrite Hko. split; [| exact Hwf'].
      apply (t_answer_failed c i (Rejected e) e k);
        [exact Ek | split; assumption | reflexivity].
Qed.

Lemma well_formed_initial : well_formed initialConfig.
Proof. constructor. Qed.

(** A property kept by every rule holds after any run of events. *)
Lemma reachable_invariant (allowed : Event -> bool) (P : Config -> Prop) :
  (forall c ev c',
     allowed ev = true -> well_formed c -> P c -> transition c ev c' -> P c') ->
  forall evs c c',
    forallb allowed evs = true ->
    well_formed c -> P c -> steps c evs = Some c' -> P c'.
Proof.
  intros Hkeep evs c c' Hal Hwf HP Hrun.
  assert (Preserve : forall c ev c',
            allowed ev = true -> well_formed c /\ P c -> step c ev = Some c' ->
            well_formed c' /\ P c').
  { clear - Hkeep. intros c ev c' Hev [Hwf HP] Hstep.
    destruct (step_transition c ev c' Hwf Hstep) as [Ht Hwf'].
    split; [exact Hwf' | exact (Hkeep c ev c' Hev Hwf HP Ht)]. }
  exact (proj2 (steps_invariant allowed (fun c => well_formed c /\ P c)
                  Preserve evs c c' Hal (conj Hwf HP) Hrun)).
Qed.

Lemma forallb_always (evs : list Event) : forallb (fun _ => true) evs = true.
Proof. induction evs; simpl; auto. Qed.

Lemma requests_app (a b : list Effect) :
  requests (a ++ b) = requests a ++ requests b.
Proof.
  induction a as [| [msg | msg e | target body] a IH]; simpl; auto.
  rewrite IH. reflexivity.
Qed.

Lemma length_removed {A : Type} (l : list A) (i : nat) (x : A) :
  nth_error l i = Some x -> S (length (removed i l)) = length l.
Proof.
  revert i. induction l as [| y l IH]; intros [| i]; simpl; try discriminate.
  - reflexivity.
  - intros H. f_equal. exact (IH i H).
Qed.

(** ** The two inputs *)

Lemma run_inputs (p : Async unit) (s : State) :
  selectedAudio (final (run p s)) = selectedAudio s
  /\ question (final (run p s)) = question s.
Proof.
  revert s. induction p as [a | e | act p IH | target body k IH]; intros s;
    try (split; reflexivity).
  simpl. destruct (apply_act act s) as [s1 out1] eqn:E.
  specialize (IH s1). destruct (run p s1) as [[s2 out2] st].
  unfold final in *. simpl in *.
  assert (selectedAudio s1 = selectedAudio s /\ question s1 = question s) as [Ha Hq].
  { destruct act; simpl in E; inversion E; subst; split; reflexivity. }
  destruct IH as [IHa IHq]. split; congruence.
Qed.

Lemma launch_store (p : Async unit) (c : Config) :
  store (launch p c) = final (run p (store c)).
Proof.
  unfold launch. destruct (run p (store c)) as [[s out] st]. reflexivity.
Qed.

(** Only the radio buttons change the selection and only the text input
    changes the question. *)
Lemma step_inputs (c : Config) (ev : Event) (c' : Config) :
  step c ev = Some c' ->
  (selectedAudio (store c') = selectedAudio (store c)
   \/ exists i file,
        ev = PickAudio i /\ nth_error audioFiles i = Some file
        /\ selectedAudio (store c') = url file)
  /\ (question (store c') = question (store c)
      \/ exists v, ev = TypeQuestion v /\ question (store c') = v).
Proof.
  intros Hstep. destruct ev as [i | v | h | h | i o]; simpl in Hstep.
  - destruct (nth_error audioFiles i) as [file |] eqn:E; inversion Hstep; subst.
    split; [right; exists i, file; auto | left; reflexivity].
  - inversion Hstep; subst. split; [left; reflexivity | right; eauto].
  - destruct (disabled h (store c)); inversion Hstep; subst.
    rewrite launch_store.
    destruct (run_inputs (handler h (store c)) (store c)); auto.
  - inversion Hstep; subst. rewrite launch_store.
    destruct (run_inputs (handler h (store c)) (store c)); auto.
  - destruct (nth_error (inflight c) i) as [k |]; inversion Hstep; subst.
    rewrite launch_store.
    destruct (run_inputs (k o) (store (drop_inflight i c))); auto.
Qed.

Lemma offered_nonempty (i : nat) (file : AudioFile) :
  nth_error audioFiles i = Some file -> url file <> "".
Proof.
  destruct i as [| [| [| i]]]; simpl; intros H; inversion H; subst;
    try discriminate.
  destruct i; discriminate.
Qed.

(** X7: Once a file is selected the selection is never empty again, whatever
    happens on the page: no handler and no response clears it. *)
Theorem selection_never_unset (c : Config) (evs : list Event) (c' : Config)
    (Hrun : steps c evs = Some c') (Hsel : selectedAudio (store c) <> "") :
  selectedAudio (store c') <> "".
Proof.
  revert c Hrun Hsel. induction evs as [| ev evs IH]; simpl; intros c Hrun Hsel.
  - inversion Hrun; subst. exact Hsel.
  - destruct (step c ev) as [c1 |] eqn:E; [| discriminate].
    apply (IH c1 Hrun).
    destruct (step_inputs c ev c1 E) as [[Hs | (i & file & _ & Hf & Hs)] _];
      rewrite Hs; [exact Hsel | exact (offered_nonempty i file Hf)].
Qed.

Lemma selection_never_unset_witness :
  exists c',
    steps (with_store (setSelectedAudio "s3://dax-health-transcribe/Sample_data.mp3")
             initialConfig)
      [Click Transcription; Settle 0 (Rejected JNull); Call QuestionAnswer]
    = Some c'
    /\ selectedAudio (store c') <> "".
Proof.
  eexists. split; [reflexivity |].
  apply (selection_never_unset
           (with_store (setSelectedAudio "s3://dax-health-transcribe/Sample_data.mp3")
              initialConfig)
           [Click Transcription; Settle 0 (Rejected JNull); Call QuestionAnswer]);
    [reflexivity | discriminate].
Defined.

(** X8: From the initial page, the selection is always empty or the location
    of one of the listed files. *)
Theorem selection_offered (evs : list Event) (c : Config)
    (Hrun : steps initialConfig evs = Some c) :
  selectedAudio (store c) = "" \/ offered (selectedAudio (store c)).
Proof.
  apply (steps_invariant (fun _ => true)
           (fun c => selectedAudio (store c) = "" \/ offered (selectedAudio (store c))))
    with (evs := evs) (c := initialConfig);
    [| apply forallb_always | left; reflexivity | exact Hrun].
  clear. intros c ev c' _ HP Hstep.
  destruct (step_inputs c ev c' Hstep) as [[Hs | (i & file & _ & Hf & Hs)] _];
    rewrite Hs; [exact HP |].
  right. exists file. split; [eapply nth_error_In; eauto | reflexivity].
Qed.

Lemma selection_offered_witness :
  exists c,
    steps initialConfig [PickAudio 2; Click Transcription] = Some c
    /\ (selectedAudio (store c) = "" \/ offered (selectedAudio (store c))).
Proof.
  eexists. split; [reflexivity |].
  apply (selection_offered [PickAudio 2; Click Transcription]). reflexivity.
Defined.

(** X9: The question cell holds the last text typed: neither a handler nor
    a response clears or rewrites the input. *)
Theorem question_is_last_typed (c : Config) (v : string) (evs : list Event)
    (c' : Config)
    (Hrun : steps c (TypeQuestion v :: evs) = Some c')
    (Hquiet : forallb (fun ev => negb (is_typing ev)) evs = true) :
  question (store c') = v.
Proof.
  simpl in Hrun.
  assert (G : forall evs c0 c1,
            forallb (fun ev => negb (is_typing ev)) evs = true ->
            steps c0 evs = Some c1 -> question (store c1) = question (store c0)).
  { clear. induction evs as [| ev evs IH]; simpl; intros c0 c1 Hq Hrun.
    - inversion Hrun; subst. reflexivity.
    - apply andb_true_iff in Hq as [Hev Hq].
      destruct (step c0 ev) as [c2 |] eqn:E; [| discriminate].
      rewrite (IH c2 c1 Hq Hrun).
      destruct (step_inputs c0 ev c2 E) as [_ [Hs | (w & -> & _)]];
        [exact Hs | discriminate Hev]. }
  rewrite (G evs _ c' Hquiet Hrun). reflexivity.
Qed.

Lemma question_is_last_typed_witness :
  exists c',
    steps initialConfig
      [TypeQuestion "What medication?"; PickAudio 0; Click Transcription;
       Settle 0 (Resolved (JStr "done")); Click QuestionAnswer;
       Settle 0 (Resolved (JObj [("answer", JStr "Ibuprofen")]))]
    = Some c'
    /\ question (store c') = "What medication?".
Proof.
  eexists. split; [reflexivity |].
  apply (question_is_last_typed initialConfig "What medication?"
           [PickAudio 0; Click Transcription;
            Settle 0 (Resolved (JStr "done")); Click QuestionAnswer;
            Settle 0 (Resolved (JObj [("answer", JStr "Ibuprofen")]))]);
    reflexivity.
Defined.

(** X10: Whichever radio button is chosen, the page ends in the same
    configuration: the three files carry the same location.  There is no
    fourth button. *)
Theorem pick_any_radio (c : Config) (i j : nat) :
  (i < 3 -> j < 3 ->
   step c (PickAudio i) = step c (PickAudio j)
   /\ exists c', step c (PickAudio i) = Some c'
                 /\ selectedAudio (store c')
                    = "s3://dax-health-transcribe/Sample_data.mp3")
  /\ (3 <= i -> step c (PickAudio i) = None).
Proof.
  split.
  - intros Hi Hj.
    destruct i as [| [| [| i]]]; try lia;
      destruct j as [| [| [| j]]]; try lia;
      (split; [reflexivity | eexists; split; reflexivity]).
  - intros Hi. destruct i as [| [| [| i]]]; try lia.
    simpl. destruct i; reflexivity.
Qed.

Lemma pick_any_radio_witness :
  step initialConfig (PickAudio 0) = step initialConfig (PickAudio 2)
  /\ step initialConfig (PickAudio 3) = None.
Proof.
  split.
  - apply (proj1 (pick_any_radio initialConfig 0 2)); lia.
  - apply (proj2 (pick_any_radio initialConfig 3 0)). lia.
Defined.

(** ** What the page posts *)

Lemma Forall_snoc {A : Type} (P : A -> Prop) (l : list A) (x : A) :
  Forall P l -> P x -> Forall P (l ++ [x]).
Proof. intros Hl Hx. apply Forall_app. split; [exact Hl | repeat constructor; exact Hx]. Qed.

(** X11: From the initial page and under any interleaving, direct calls
    included, every request ever posted is a transcription request for
    one of the listed files or a question request with a non-empty
    question, each with that single property in its body. *)
Theorem requests_well_formed (evs : list Event) (c : Config)
    (Hrun : steps initialConfig evs = Some c) :
  Forall known_request (requests (trace c)).
Proof.
  assert (H : (selectedAudio (store c) = "" \/ offered (selectedAudio (store c)))
              /\ Forall known_request (requests (trace c))).
  { apply (reachable_invariant (fun _ => true)
             (fun c => (selectedAudio (store c) = ""
                        \/ offered (selectedAudio (store c)))
                       /\ Forall known_request (requests (trace c))))
      with (evs := evs) (c := initialConfig);
      [| apply forallb_always | apply well_formed_initial
       | split; [left; reflexivity | constructor] | exact Hrun].
    clear. intros c ev c' _ Hwf [Hsel Hreq] Ht.
    destruct Ht as [i file Hf | v | ev h Htr G | ev h k Htr G Hk
                   | i d k Hi Hk | i e k Hi Hk | i d v k Hi Hk R
                   | i o e k Hi Hk F]; simpl;
      rewrite ?requests_app, ?app_nil_r; simpl; rewrite ?app_nil_r;
      try (split; assumption).
    - split; [| exact Hreq]. right. exists file.
      split; [eapply nth_error_In; eauto | reflexivity].
    - split; [exact Hsel |].
      destruct h; simpl in *; (apply Forall_snoc; [exact Hreq |]).
      + left. apply audio_selected_true in G.
        destruct Hsel as [Hsel | (file & Hin & Hu)]; [contradiction |].
        exists file. split; [exact Hin | rewrite Hu; reflexivity].
      + right. apply can_ask_true in G. destruct G as [_ Hq].
        exists (question (store c)). split; [exact Hq | reflexivity]. }
  exact (proj2 H).
Qed.

Lemma requests_well_formed_witness :
  exists c,
    steps initialConfig
      [PickAudio 1; Call Transcription; Call Transcription;
       Settle 1 (Resolved (JBool true)); TypeQuestion "Why?"; Call QuestionAnswer]
    = Some c
    /\ Forall known_request (requests (trace c)).
Proof.
  eexists. split; [reflexivity |].
  apply (requests_well_formed
           [PickAudio 1; Call Transcription; Call Transcription;
            Settle 1 (Resolved (JBool true)); TypeQuestion "Why?";
            Call QuestionAnswer]).
  reflexivity.
Defined.

(** One rule, counted: a request is posted exactly when a handler
    starts, and a settling request posts nothing. *)
Lemma transition_accounts (c : Config) (ev : Event) (c' : Config) :
  transition c ev c' ->
  length (requests (trace c')) + length (inflight c)
  = length (requests (trace c)) + length (inflight c')
    + (if is_settle ev then 1 else 0).
Proof.
  intros Ht.
  destruct Ht as [i file Hf | v | ev h Htr G | ev h k Htr G Hk
                 | i d k Hi Hk | i e k Hi Hk | i d v k Hi Hk R
                 | i o e k Hi Hk F]; simpl;
    rewrite ?requests_app, ?length_app; simpl;
    try rewrite <- (length_removed _ _ _ Hi); try lia.
  - destruct Htr as [-> | [-> _]]; simpl; lia.
  - destruct h; destruct Htr as [-> | [-> _]]; simpl; lia.
Qed.

(** X12: From the initial page and under any interleaving, every request
    posted so far is either still outstanding or was settled by exactly
    one event: nothing is posted twice, retried or dropped. *)
Theorem requests_accounted (evs : list Event) (c : Config)
    (Hrun : steps initialConfig evs = Some c) :
  length (requests (trace c)) = length (inflight c) + settled evs.
Proof.
  assert (G : forall evs c0 c1,
            well_formed c0 -> steps c0 evs = Some c1 ->
            length (requests (trace c1)) + length (inflight c0)
            = length (requests (trace c0)) + length (inflight c1) + settled evs).
  { clear. induction evs as [| ev evs IH]; simpl; intros c0 c1 Hwf Hrun.
    - inversion Hrun; subst. unfold settled. simpl. lia.
    - destruct (step c0 ev) as [c2 |] eqn:E; [| discriminate].
      destruct (step_transition c0 ev c2 Hwf E) as [Ht Hwf2].
      specialize (IH c2 c1 Hwf2 Hrun).
      pose proof (transition_accounts c0 ev c2 Ht) as H1.
      unfold settled in *. simpl. destruct (is_settle ev); simpl; lia. }
  specialize (G evs initialConfig c well_formed_initial Hrun).
  simpl in G. lia.
Qed.

Lemma requests_accounted_witness :
  exists c,
    steps initialConfig
      [PickAudio 0; Click Transcription; Settle 0 (Rejected JNull);
       Click Transcription]
    = Some c
    /\ length (requests (trace c)) = length (inflight c) + 1.
Proof.
  eexists. split; [reflexivity |].
  apply (requests_accounted
           [PickAudio 0; Click Transcription; Settle 0 (Rejected JNull);
            Click Transcription]).
  reflexivity.
Defined.

(** X13: Until some request has resolved, [summary] and [answer] keep their
    initial values and nothing is posted to the question endpoint,
    whatever is clicked, typed or called. *)
Theorem nothing_before_first_response (evs : list Event) (c : Config)
    (Hrun : steps initialConfig evs = Some c)
    (Hnone : forallb (fun ev => negb (is_resolution ev)) evs = true) :
  summary (store c) = JNull
  /\ answer (store c) = JStr ""
  /\ forall body, ~ In (question_endpoint, body) (requests (trace c)).
Proof.
  apply (reachable_invariant (fun ev => negb (is_resolution ev))
           (fun c => summary (store c) = JNull
                     /\ answer (store c) = JStr ""
                     /\ forall body,
                          ~ In (question_endpoint, body) (requests (trace c))))
    with (evs := evs) (c := initialConfig);
    [| exact Hnone | apply well_formed_initial
     | repeat split; intros body [] | exact Hrun].
  clear. intros c ev c' Hev Hwf (Hs & Ha & Hq) Ht.
  destruct Ht as [i file Hf | v | ev h Htr G | ev h k Htr G Hk
                 | i d k Hi Hk | i e k Hi Hk | i d v k Hi Hk R
                 | i o e k Hi Hk F]; simpl in *;
    try discriminate Hev;
    rewrite ?requests_app, ?app_nil_r; simpl; rewrite ?app_nil_r;
    try (repeat split; assumption).
  - destruct h; simpl in *.
    + repeat split; try assumption. intros body Hin.
      apply in_app_or in Hin as [Hin | [Hin | []]]; [exact (Hq body Hin) |].
      inversion Hin.
    + apply can_ask_true in G. destruct G as [G _].
      rewrite Hs in G. discriminate G.
Qed.

Lemma nothing_before_first_response_witness :
  exists c,
    steps initialConfig
      [PickAudio 0; TypeQuestion "Why?"; Click QuestionAnswer; Click Transcription;
       Settle 0 (Rejected (JStr "Network Error")); Call QuestionAnswer]
    = Some c
    /\ summary (store c) = JNull.
Proof.
  eexists. split; [reflexivity |].
  apply (nothing_before_first_response
           [PickAudio 0; TypeQuestion "Why?"; Click QuestionAnswer;
            Click Transcription;
            Settle 0 (Rejected (JStr "Network Error")); Call QuestionAnswer]);
    reflexivity.
Defined.

(** ** Buttons and direct calls *)

(** X14: Driven through the page, the "Please select an audio file." alert is
    never shown: the transcription button is disabled exactly when the
    handler would refuse. *)
Theorem page_never_asks_to_select (evs : list Event) (c : Config)
    (Hrun : steps initialConfig evs = Some c)
    (Hpage : forallb from_page evs = true) :
  ~ In (EAlert msg_select_audio) (trace c).
Proof.
  apply (reachable_invariant from_page
           (fun c => ~ In (EAlert msg_select_audio) (trace c)))
    with (evs := evs) (c := initialConfig);
    [| exact Hpage | apply well_formed_initial | intros [] | exact Hrun].
  clear. intros c ev c' Hev Hwf HP Ht Hin.
  destruct Ht as [i file Hf | v | ev h Htr G | ev h k Htr G Hk
                 | i d k Hi Hk | i e k Hi Hk | i d v k Hi Hk R
                 | i o e k Hi Hk F]; simpl in Hin;
    try (apply HP; exact Hin);
    apply in_app_or in Hin as [Hin | Hin]; try (apply HP; exact Hin);
    simpl in Hin.
  - destruct Htr as [-> | [-> D]]; [discriminate Hev |].
    destruct h.
    + unfold disabled in D. unfold guard, audio_selected in G.
      rewrite G in D. discriminate D.
    + simpl in Hin. destruct Hin as [Hin | []]. discriminate Hin.
  - destruct h; destruct Hin as [Hin | []]; discriminate Hin.
  - destruct Hin as [].
  - destruct Hin as [Hin | [Hin | []]]; discriminate Hin.
  - destruct Hin as [].
  - destruct Hin as [Hin | [Hin | []]]; discriminate Hin.
Qed.

Lemma page_never_asks_to_select_witness :
  exists c,
    steps initialConfig
      [TypeQuestion "Why?"; Click QuestionAnswer; PickAudio 0; Click Transcription]
    = Some c
    /\ ~ In (EAlert msg_select_audio) (trace c).
Proof.
  eexists. split; [reflexivity |].
  apply (page_never_asks_to_select
           [TypeQuestion "Why?"; Click QuestionAnswer; PickAudio 0;
            Click Transcription]);
    reflexivity.
Defined.

(** X15: The answer button is not disabled by a missing transcription: with
    a question typed, nothing loading and a falsy [summary], a click
    runs the handler, which shows the "Please complete transcription and
    enter a question." alert and changes nothing else. *)
Theorem ask_button_reaches_refusal (c : Config)
    (Hq : question (store c) <> "")
    (Hidle : loading (store c) = false)
    (Hsum : truthy (summary (store c)) = false) :
  step c (Click QuestionAnswer)
  = Some {| store := store c; inflight := inflight c;
            trace := trace c ++ [EAlert msg_incomplete] |}.
Proof.
  simpl. apply truthy_str_true in Hq. simpl in Hq. rewrite Hq, Hidle. simpl.
  unfold launch. rewrite handleQuestionAnswer_refuses.
  - reflexivity.
  - unfold can_ask. rewrite Hsum. reflexivity.
Qed.

Lemma ask_button_reaches_refusal_witness :
  step (with_store (setQuestion "Why?") initialConfig) (Click QuestionAnswer)
  = Some {| store := setQuestion "Why?" initialState; inflight := [];
            trace := [EAlert msg_incomplete] |}.
Proof.
  apply (ask_button_reaches_refusal (with_store (setQuestion "Why?") initialConfig));
    [discriminate | reflexivity | reflexivity].
Defined.

(** X16: Driven through the page, while a request is outstanding [loading]
    is raised and neither button can be clicked. *)
Theorem page_exclusive (evs : list Event) (c : Config)
    (Hrun : steps initialConfig evs = Some c)
    (Hpage : forallb from_page evs = true)
    (Hbusy : inflight c <> []) :
  loading (store c) = true /\ forall h, step c (Click h) = None.
Proof.
  destruct (steps_invariant from_page flag_tracks_request
              (fun c ev c' Hev => flag_tracks_request_step c ev c' Hev)
              evs initialConfig c Hpage flag_tracks_request_initial Hrun)
    as [_ Hlen].
  assert (Hl : loading (store c) = true).
  { destruct (loading (store c)); [reflexivity |].
    apply length_zero_iff_nil in Hlen. contradiction. }
  split; [exact Hl |].
  intros h. simpl. destruct h; simpl; rewrite Hl, orb_true_r; reflexivity.
Qed.

Lemma page_exclusive_witness :
  exists c,
    steps initialConfig [PickAudio 0; TypeQuestion "Why?"; Click Transcription]
    = Some c
    /\ loading (store c) = true
    /\ step c (Click QuestionAnswer) = None.
Proof.
  eexists. split; [reflexivity |].
  destruct (page_exclusive
              [PickAudio 0; TypeQuestion "Why?"; Click Transcription] _
              eq_refl eq_refl) as [Hl Hnone].
  - discriminate.
  - split; [exact Hl | exact (Hnone QuestionAnswer)].
Defined.

Lemma call_transcription_starts (c : Config) :
  audio_selected (store c) = true ->
  exists k,
    transcription_rest k
    /\ step c (Call Transcription)
       = Some {| store := setLoading true (store c);
                 inflight := inflight c ++ [k];
                 trace := trace c ++ [transcription_request (store c)] |}.
Proof.
  intros Hsel.
  destruct (handleTranscription_starts (store c) Hsel) as (k & E & Hrest).
  exists k. split; [exact Hrest |].
  simpl. unfold launch. rewrite E. reflexivity.
Qed.

(** X17: The handlers do not look at [loading] themselves: called directly
    twice with a file selected, [handleTranscription] posts two
    requests, and when the first settles [loading] is lowered although
    the second is still outstanding. *)
Theorem direct_calls_overlap (c : Config) (o : Outcome)
    (Hsel : audio_selected (store c) = true)
    (Hnone : inflight c = []) :
  exists c',
    steps c [Call Transcription; Call Transcription; Settle 0 o] = Some c'
    /\ loading (store c') = false
    /\ length (inflight c') = 1
    /\ length (requests (trace c')) = 2 + length (requests (trace c)).
Proof.
  destruct (call_transcription_starts c Hsel) as (k1 & [Hok1 Hko1] & E1).
  cbn [steps]. rewrite E1, Hnone.
  match goal with |- context [step ?c1 (Call Transcription)] =>
    destruct (call_transcription_starts c1 Hsel) as (k2 & _ & E2); rewrite E2
  end.
  cbn [store inflight trace app step nth_error].
  unfold launch, drop_inflight. cbn [store inflight trace firstn skipn app].
  destruct o as [d | e]; [rewrite Hok1 | rewrite Hko1];
    (eexists; split; [reflexivity |]);
    cbn [store inflight trace loading setLoading length];
    rewrite !requests_app; cbn [requests transcription_request];
    rewrite !length_app; simpl; repeat split; lia.
Qed.

Lemma direct_calls_overlap_witness :
  exists c',
    steps (with_store (setSelectedAudio "s3://dax-health-transcribe/Sample_data.mp3")
             initialConfig)
      [Call Transcription; Call Transcription; Settle 0 (Resolved JNull)]
    = Some c'
    /\ loading (store c') = false
    /\ length (inflight c') = 1.
Proof.
  destruct (direct_calls_overlap
              (with_store (setSelectedAudio "s3://dax-health-transcribe/Sample_data.mp3")
                 initialConfig)
              (Resolved JNull) eq_refl eq_refl) as (c' & Hrun & Hl & Hn & _).
  exists c'. split; [exact Hrun | split; assumption].
Defined.

(** ** Where the displayed data comes from *)

(** X18: A resolved transcription opens the way to questions exactly when
    its body is truthy: after an empty or otherwise falsy body the
    question handler still refuses, although no failure was reported.  A
    rejected transcription leaves the way as open or closed as it was. *)
Theorem transcription_enables_question (s : State) (d e : JsVal)
    (Hsel : selectedAudio s <> "") :
  can_ask (final (exec (handleTranscription s) (Resolved d) s))
  = truthy d && truthy (JStr (question s))
  /\ alerts (effects (exec (handleTranscription s) (Resolved d) s)) = []
  /\ can_ask (final (exec (handleTranscription s) (Rejected e) s)) = can_ask s.
Proof.
  apply audio_selected_true in Hsel.
  rewrite (exec_transcription_resolved s d Hsel),
    (exec_transcription_rejected s e Hsel).
  repeat split.
Qed.

Lemma transcription_enables_question_witness :
  selectedAudio sample_session <> ""
  /\ can_ask (final (exec (handleTranscription sample_session)
                       (Resolved (JStr "")) sample_session))
     = false.
Proof.
  split; [discriminate |].
  rewrite (proj1 (transcription_enables_question sample_session
                    (JStr "") JNull ltac:(discriminate))).
  reflexivity.
Defined.

(** One rule, seen from [summary] and [answer]: they change only when a
    request resolves, to the body and to the value read from the body. *)
Lemma transition_provenance (c : Config) (ev : Event) (c' : Config) :
  transition c ev c' ->
  (summary (store c') = summary (store c)
   \/ exists i, ev = Settle i (Resolved (summary (store c'))))
  /\ (answer (store c') = answer (store c)
      \/ exists i d, ev = Settle i (Resolved d)
                     /\ get_member d "answer" = inl (answer (store c'))).
Proof.
  intros Ht.
  destruct Ht as [i file Hf | v | ev h Htr G | ev h k Htr G Hk
                 | i d k Hi Hk | i e k Hi Hk | i d v k Hi Hk R
                 | i o e k Hi Hk F]; simpl;
    try (split; left; reflexivity).
  - split; [right; exists i; reflexivity | left; reflexivity].
  - split; [left; reflexivity | right; exists i, d; split; [reflexivity | exact R]].
Qed.

(** X19: From the initial page and under any interleaving, [summary] is
    still unset or is, unchanged, the body of a response that resolved;
    [answer] is still the empty string or is the value read from the
    [answer] field of a body that resolved.  The page never shows data
    it made up itself. *)
Theorem displayed_data_provenance (evs : list Event) (c : Config)
    (Hrun : steps initialConfig evs = Some c) :
  (summary (store c) = JNull
   \/ exists i, In (Settle i (Resolved (summary (store c)))) evs)
  /\ (answer (store c) = JStr ""
      \/ exists i d, In (Settle i (Resolved d)) evs
                     /\ get_member d "answer" = inl (answer (store c))).
Proof.
  assert (G : forall evs c0 c1,
            well_formed c0 -> steps c0 evs = Some c1 ->
            (summary (store c1) = summary (store c0)
             \/ exists i, In (Settle i (Resolved (summary (store c1)))) evs)
            /\ (answer (store c1) = answer (store c0)
                \/ exists i d, In (Settle i (Resolved d)) evs
                               /\ get_member d "answer" = inl (answer (store c1)))).
  { clear. induction evs as [| ev evs IH]; simpl; intros c0 c1 Hwf Hrun.
    - inversion Hrun; subst. split; left; reflexivity.
    - destruct (step c0 ev) as [c2 |] eqn:E; [| discriminate].
      destruct (step_transition c0 ev c2 Hwf E) as [Ht Hwf2].
      destruct (IH c2 c1 Hwf2 Hrun) as [Hs Ha].
      destruct (transition_provenance c0 ev c2 Ht) as [Hs0 Ha0].
      split.
      + destruct Hs as [Hs | [i Hi]]; [| right; exists i; right; exact Hi].
        destruct Hs0 as [Hs0 | [i Hi]]; [left; congruence |].
        right. exists i. left. rewrite Hs. exact Hi.
      + destruct Ha as [Ha | (i & d & Hi & Hd)];
          [| right; exists i, d; split; [right; exact Hi | exact Hd]].
        destruct Ha0 as [Ha0 | (i & d & Hi & Hd)]; [left; congruence |].
        right. exists i, d. split; [left; exact Hi |].
        rewrite Ha. exact Hd. }
  exact (G evs initialConfig c well_formed_initial Hrun).
Qed.

Lemma displayed_data_provenance_witness :
  exists c,
    steps initialConfig
      [PickAudio 0; Click Transcription; Settle 0 (Resolved (JStr "done"))]
    = Some c
    /\ (summary (store c) = JNull
        \/ exists i,
             In (Settle i (Resolved (summary (store c))))
               [PickAudio 0; Click Transcription;
                Settle 0 (Resolved (JStr "done"))]).
Proof.
  eexists. split; [reflexivity |].
  apply (displayed_data_provenance
           [PickAudio 0; Click Transcription; Settle 0 (Resolved (JStr "done"))]).
  reflexivity.
Defined.
